(** * filtered_logger.py (0x00-personal_data)

    A shallow embedding of [filter_datum], [RedactingFormatter.format] and the
    row loop of [main], with their properties.

    Strings are Stdlib [string]s (lists of ASCII characters).  The regular
    expression built by [filter_datum],
      r'(' + '|'.join(fields) + ')=([^' + separator + ']*' + ')'
    is embedded as a literal matcher: each field name is matched as plain
    text and the separator as a set of plain characters.  That is what
    Python's [re] does exactly when no field name holds a
    regular-expression metacharacter and the separator is a non-empty
    string of characters that are plain inside a character class
    ([literal_fields] and [literal_separator] below); other arguments make
    [re.sub] interpret the text as a pattern or raise [re.error], which the
    embedding does not model.  Every property of [filter_datum] for
    arbitrary fields and separators below assumes [literal_fields] and
    [literal_separator]; [PII_FIELDS] and [";"] satisfy both. *)

From Stdlib Require Import Strings.String Strings.Ascii Lists.List Bool Arith Lia.
Import ListNotations.
Open Scope string_scope.

(** ** String helpers *)

Fixpoint contains_char (c : ascii) (s : string) : bool :=
  match s with
  | EmptyString => false
  | String x s' => Ascii.eqb x c || contains_char c s'
  end.

Fixpoint drop_while (p : ascii -> bool) (s : string) : string :=
  match s with
  | EmptyString => EmptyString
  | String x s' => if p x then drop_while p s' else s
  end.

Fixpoint take_while (p : ascii -> bool) (s : string) : string :=
  match s with
  | EmptyString => EmptyString
  | String x s' => if p x then String x (take_while p s') else EmptyString
  end.

Fixpoint skip (n : nat) (s : string) : string :=
  match n, s with
  | O, _ => s
  | S _, EmptyString => EmptyString
  | S n', String _ s' => skip n' s'
  end.

(** ** filter_datum *)

(** The character class [[^separator]]: a character not in [separator]. *)
Definition in_separator (separator : string) (c : ascii) : bool :=
  contains_char c separator.

Definition value_char (separator : string) (c : ascii) : bool :=
  negb (in_separator separator c).

(** The alternatives of the group ['({})'.format('|'.join(fields))]:
    ['|'.join([])] is the empty string, so with no fields the group is [()], whose only
    alternative is the empty string. *)
Definition alternatives (fields : list string) : list string :=
  match fields with
  | [] => [EmptyString]
  | _ => fields
  end.

(** The group followed by [=] at the current position: the regex engine tries
    the alternatives in order and keeps the first one that is followed by
    [=] (the rest of the pattern, the starred class [[^sep]], always
    matches).  Each alternative is compared as plain text, which is how [re]
    reads a field name without metacharacters ([literal_fields]). *)
Fixpoint match_key (alts : list string) (s : string) : option string :=
  match alts with
  | [] => None
  | f :: alts' => if prefix (f ++ "=") s then Some f else match_key alts' s
  end.

(** [re.sub] scanning left to right: at a match, emit
    [f"{m.group(1)}={redaction}"] and resume after the greedy value
    [[^sep]*]; otherwise copy one character and move on.  [fuel] bounds the
    scan by the length of the message ([re_sub] below). *)
Fixpoint sub_loop (fuel : nat) (alts : list string) (redaction separator : string)
    (s : string) : string :=
  match fuel with
  | O => s
  | S n =>
      match match_key alts s with
      | Some k =>
          let after := skip (String.length k + 1) s in
          k ++ "=" ++ redaction
            ++ sub_loop n alts redaction separator
                 (drop_while (value_char separator) after)
      | None =>
          match s with
          | EmptyString => EmptyString
          | String c s' => String c (sub_loop n alts redaction separator s')
          end
      end
  end.

Definition re_sub (alts : list string) (redaction separator message : string) : string :=
  sub_loop (String.length message) alts redaction separator message.

Definition filter_datum (fields : list string) (redaction message separator : string)
    : string :=
  re_sub (alternatives fields) redaction separator message.

Definition PII_FIELDS : list string := ["name"; "email"; "phone"; "ssn"; "password"].

(** ** Tokens of a message *)

(** A string with no character of the separator class. *)
Fixpoint avoids (separator s : string) : bool :=
  match s with
  | EmptyString => true
  | String x s' => value_char separator x && avoids separator s'
  end.

(** The value [[^sep]*] ends at the end of the message or at a separator. *)
Definition value_end (separator rest : string) : Prop :=
  match rest with
  | EmptyString => True
  | String c _ => in_separator separator c = true
  end.

(** Characters with a special meaning in a Python regular expression outside
    a character class. *)
Definition regex_special : string := ".^$*+?{}[]\|()".

(** Characters with a special meaning inside a character class [[^...]]. *)
Definition class_special : string := "\]^-[".

(** Field names that [re] reads as plain text: no metacharacter in any. *)
Definition literal_fields (fields : list string) : bool :=
  forallb (fun f => avoids regex_special f) fields.

(** A separator that makes [[^sep]] a class of exactly its characters: not
    empty, and none of its characters special inside a class. *)
Definition literal_separator (separator : string) : bool :=
  negb (String.eqb separator EmptyString) && avoids class_special separator.

(** No position of [t] starts a match. *)
Fixpoint no_match_in (alts : list string) (t : string) : bool :=
  match match_key alts t with
  | Some _ => false
  | None => match t with EmptyString => true | String _ t' => no_match_in alts t' end
  end.

(** The key of a [key=value] token: the text before its first [=]. *)
Definition key_of (t : string) : string :=
  take_while (fun x => negb (Ascii.eqb x "=")) t.

(** The tokens of a message, cut at every separator character
    ([message.split(separator)] for a one-character separator). *)
Fixpoint split_sep (sep s : string) : list string :=
  match s with
  | EmptyString => [EmptyString]
  | String x s' =>
      if in_separator sep x then EmptyString :: split_sep sep s'
      else match split_sep sep s' with
           | [] => [String x EmptyString]
           | t :: ts => String x t :: ts
           end
  end.

Definition keys (sep s : string) : list string := map key_of (split_sep sep s).

(** ** RedactingFormatter *)

(** The attributes of a [logging.LogRecord] the formatter reads or writes.
    [message] and [asctime] are absent until [logging.Formatter.format]
    sets them.  Records built by [logger.info(message)] carry no arguments,
    no [exc_info] and no [stack_info], so [getMessage] is [str(msg)] and the
    traceback branches of [logging.Formatter.format] are not taken. *)
Record LogRecord := {
  rec_name : string;
  rec_levelname : string;
  rec_created : nat;
  rec_msg : string;
  rec_message : option string;
  rec_asctime : option string
}.

Definition getMessage (r : LogRecord) : string := rec_msg r.

Definition set_message (m : string) (r : LogRecord) : LogRecord :=
  {| rec_name := rec_name r; rec_levelname := rec_levelname r;
     rec_created := rec_created r; rec_msg := rec_msg r;
     rec_message := Some m; rec_asctime := rec_asctime r |}.

Definition set_asctime (t : string) (r : LogRecord) : LogRecord :=
  {| rec_name := rec_name r; rec_levelname := rec_levelname r;
     rec_created := rec_created r; rec_msg := rec_msg r;
     rec_message := rec_message r; rec_asctime := Some t |}.

Definition REDACTION : string := "***".
Definition FORMAT : string := "[HOLBERTON] %(name)s %(levelname)s %(asctime)-15s: %(message)s".
Definition SEPARATOR : string := ";".

Fixpoint spaces (n : nat) : string :=
  match n with O => EmptyString | S n' => String " " (spaces n') end.

(** [%-15s]: left-justified in a field of width 15. *)
Definition ljust (w : nat) (s : string) : string := s ++ spaces (w - String.length s).

Definition attr (o : option string) : string :=
  match o with Some s => s | None => EmptyString end.

(** [Formatter.usesTime]: [self._fmt.find("%(asctime)") >= 0]. *)
Definition usesTime : bool :=
  match index 0 "%(asctime)" FORMAT with Some _ => true | None => false end.

(** [FORMAT % record.__dict__]. *)
Definition formatMessage (r : LogRecord) : string :=
  "[HOLBERTON] " ++ rec_name r ++ " " ++ rec_levelname r ++ " "
    ++ ljust 15 (attr (rec_asctime r)) ++ ": " ++ attr (rec_message r).

Section Formatter.

(** [Formatter.formatTime(record)]: the text of [time.localtime(created)]
    with its milliseconds; it depends on the local time zone only. *)
Variable formatTime : nat -> string.

(** [logging.Formatter.format]: it returns the line and updates the record. *)
Definition base_format (r : LogRecord) : string * LogRecord :=
  let r1 := set_message (getMessage r) r in
  let r2 := if usesTime then set_asctime (formatTime (rec_created r1)) r1 else r1 in
  (formatMessage r2, r2).

(** [RedactingFormatter(fields).format(record)]. *)
Definition format (fields : list string) (r : LogRecord) : string * LogRecord :=
  let (s, r') := base_format r in
  (filter_datum fields REDACTION s SEPARATOR, r').

End Formatter.

(** ** main *)

(** ['sep'.join(xs)]. *)
Fixpoint py_join (sep : string) (xs : list string) : string :=
  match xs with
  | [] => EmptyString
  | [x] => x
  | x :: xs' => x ++ sep ++ py_join sep xs'
  end.

Fixpoint map_option {A B : Type} (f : A -> option B) (xs : list A) : option (list B) :=
  match xs with
  | [] => Some []
  | x :: xs' =>
      match f x, map_option f xs' with
      | Some y, Some ys => Some (y :: ys)
      | _, _ => None
      end
  end.

(** [f"{fields[i]}={row[i]}"]; [None] is the [IndexError] of a short row. *)
Definition column_pair (fields row : list string) (i : nat) : option string :=
  match nth_error fields i, nth_error row i with
  | Some f, Some v => Some (f ++ "=" ++ v)
  | _, _ => None
  end.

(** [message = "; ".join(... for i in range(len(fields)))]; the row's
    values are already rendered by [str]. *)
Definition main_message (fields row : list string) : option string :=
  match map_option (column_pair fields row) (seq 0 (List.length fields)) with
  | Some pairs => Some (py_join "; " pairs)
  | None => None
  end.

(** Errors raised to [main]: by [mysql.connector.connect], by
    [cursor.execute], by fetching a row while iterating the cursor, and the
    [IndexError] of [row[i]]. *)
Inductive exn := ConnectError | QueryError | FetchError | IndexError.

(** What is open and what was logged. *)
Record World := { db_open : bool; cursor_open : bool; logged : list string }.

Definition M (A : Type) : Type := World -> (A + exn) * World.

Definition ret {A : Type} (a : A) : M A := fun w => (inl a, w).
Definition raise {A : Type} (e : exn) : M A := fun w => (inr e, w).
Definition bind {A B : Type} (m : M A) (k : A -> M B) : M B :=
  fun w => match m w with
           | (inl a, w') => k a w'
           | (inr e, w') => (inr e, w')
           end.

Notation "x <- m ;; k" := (bind m (fun x => k)) (at level 61, m at next level, right associativity).
Notation "m ;; k" := (bind m (fun _ => k)) (at level 61, right associativity).

Definition set_db (b : bool) : M unit :=
  fun w => (inl tt, {| db_open := b; cursor_open := cursor_open w; logged := logged w |}).
Definition set_cursor (b : bool) : M unit :=
  fun w => (inl tt, {| db_open := db_open w; cursor_open := b; logged := logged w |}).

(** [logger.info(message)]: the record reaches the stream handler; an error
    while formatting or writing is reported by [Handler.handleError] and does
    not reach [main]. *)
Definition log_info (m : string) : M unit :=
  fun w => (inl tt, {| db_open := db_open w; cursor_open := cursor_open w;
                       logged := logged w ++ [m] |}).

(** What the MySQL server does for this run: whether [connect] and
    [execute] succeed, [cursor.description], and the successive results of
    fetching a row ([None]: the fetch raises). *)
Record Connector := {
  connect_ok : bool;
  execute_ok : bool;
  description : list string;
  fetches : list (option (list string))
}.

Definition get_db (c : Connector) : M unit :=
  if connect_ok c then set_db true else raise ConnectError.

Definition execute (c : Connector) : M unit :=
  if execute_ok c then ret tt else raise QueryError.

(** [for row in cursor: message = ...; logger.info(message)]. *)
Fixpoint row_loop (fields : list string) (rows : list (option (list string))) : M unit :=
  match rows with
  | [] => ret tt
  | None :: _ => raise FetchError
  | Some row :: rows' =>
      match main_message fields row with
      | Some m => log_info m ;; row_loop fields rows'
      | None => raise IndexError
      end
  end.

Definition main (c : Connector) : M unit :=
  get_db c ;;
  set_cursor true ;;
  execute c ;;
  let fields := description c in
  row_loop fields (fetches c) ;;
  set_cursor false ;;
  set_db false.

Definition initial_world : World := {| db_open := false; cursor_open := false; logged := [] |}.

(** ** get_logger and logger.info *)

Definition NOTSET : nat := 0.
Definition INFO : nat := 20.
Definition WARNING : nat := 30.

(** A [StreamHandler] (level [NOTSET]) whose formatter is
    [RedactingFormatter(fields)]; [handler_id] is the object's identity. *)
Record Handler := { handler_id : nat; handler_fields : list string }.

Record Logger := { lg_level : nat; lg_propagate : bool; lg_handlers : list Handler }.

(** The [logging] manager's entry for ["user_data"] (created at the first
    [getLogger("user_data")]) and the identity of the next new object. *)
Record Registry := { user_data_logger : option Logger; next_id : nat }.

Definition empty_registry : Registry := {| user_data_logger := None; next_id := 0 |}.

(** [logging.getLogger("user_data")]: the registered logger, or a fresh one
    with level [NOTSET], [propagate = True] and no handlers. *)
Definition getLogger (reg : Registry) : Logger :=
  match user_data_logger reg with
  | Some lg => lg
  | None => {| lg_level := NOTSET; lg_propagate := true; lg_handlers := [] |}
  end.

(** [Logger.addHandler]: [if not (hdlr in self.handlers): append]. *)
Definition addHandler (h : Handler) (lg : Logger) : Logger :=
  if existsb (fun h' => Nat.eqb (handler_id h') (handler_id h)) (lg_handlers lg) then lg
  else {| lg_level := lg_level lg; lg_propagate := lg_propagate lg;
          lg_handlers := lg_handlers lg ++ [h] |}.

(** [get_logger()]: set level INFO, [propagate = False], attach a new
    [StreamHandler] with [RedactingFormatter(fields=PII_FIELDS)]. *)
Definition get_logger (reg : Registry) : Registry * Logger :=
  let lg := getLogger reg in
  let lg1 := {| lg_level := INFO; lg_propagate := false; lg_handlers := lg_handlers lg |} in
  let h := {| handler_id := next_id reg; handler_fields := PII_FIELDS |} in
  let lg2 := addHandler h lg1 in
  ({| user_data_logger := Some lg2; next_id := S (next_id reg) |}, lg2).

(** [n] successive calls of [get_logger()]. *)
Fixpoint get_logger_n (n : nat) (reg : Registry) : Registry :=
  match n with
  | O => reg
  | S n' => fst (get_logger (get_logger_n n' reg))
  end.

(** The record [logger.info(msg)] creates for the ["user_data"] logger. *)
Definition info_record (created : nat) (msg : string) : LogRecord :=
  {| rec_name := "user_data"; rec_levelname := "INFO"; rec_created := created;
     rec_msg := msg; rec_message := None; rec_asctime := None |}.

(** [Logger.isEnabledFor(INFO)]: a logger at [NOTSET] defers to the root
    logger, whose default level is [WARNING]. *)
Definition info_enabled (lg : Logger) : bool :=
  if Nat.eqb (lg_level lg) NOTSET then Nat.leb WARNING INFO else Nat.leb (lg_level lg) INFO.

Section Emit.

Variable formatTime : nat -> string.

(** [callHandlers] over the logger's handlers: each [StreamHandler.emit]
    writes [self.format(record) + "\n"]; the record is shared, so each
    handler sees the attributes the previous one wrote. *)
Fixpoint emit_all (hs : list Handler) (r : LogRecord) : list string :=
  match hs with
  | [] => []
  | h :: hs' =>
      let (s, r') := format formatTime (handler_fields h) r in
      (s ++ String "010" EmptyString) :: emit_all hs' r'
  end.

(** The lines [logger.info(msg)] writes on the logger's streams.  With
    [propagate = False] no parent logger is visited; with no handler the
    last-resort handler only takes WARNING and above. *)
Definition info_lines (lg : Logger) (created : nat) (msg : string) : list string :=
  if info_enabled lg then emit_all (lg_handlers lg) (info_record created msg) else [].

End Emit.

(** [k.endswith(f)]. *)
Fixpoint ends_with (f s : string) : bool :=
  String.eqb f s || match s with EmptyString => false | String _ s' => ends_with f s' end.

(** The column pair of [main] as the formatter leaves it: masked when the
    column name ends with one of the fields. *)
Definition redacted_pair (fields : list string) (mask : string) (p : string * string) : string :=
  let (c, v) := p in
  c ++ "=" ++ (if existsb (fun f => ends_with f c) (alternatives fields) then mask else v).

(** A [column=value] pair with neither ['='] nor a separator character. *)
Definition simple_pair (sep : string) (p : string * string) : Prop :=
  let (c, v) := p in
  contains_char "=" c = false /\ contains_char "=" v = false /\
  avoids sep c = true /\ avoids sep v = true.

(** The message [main] logs for a row with enough values. *)
Definition row_message (fields row : list string) : string :=
  py_join "; " (map (fun '(f, v) => f ++ "=" ++ v) (combine fields row)).

(** ** Sample inputs *)


Definition sample_time (_ : nat) : string := "2024-01-01 00:00:00,000".



(** A run in which fetching the second row raises. *)
Definition failing_connector : Connector :=
  {| connect_ok := true; execute_ok := true; description := ["name"; "email"];
     fetches := [Some ["bob"; "bob@x.com"]; None] |}.

Definition sample_connector : Connector :=
  {| connect_ok := true; execute_ok := true; description := ["name"; "email"];
     fetches := [Some ["bob"; "bob@x.com"]; Some ["eve"; "eve@x.com"]] |}.

Definition short_row_connector : Connector :=
  {| connect_ok := true; execute_ok := true; description := ["name"; "email"];
     fetches := [Some ["bob"; "bob@x.com"]; Some ["eve"]; Some ["ann"; "ann@x.com"]] |}.

(** ** Basic facts on strings *)

Lemma string_app_assoc (a b c : string) : (a ++ b) ++ c = a ++ (b ++ c).
Proof. induction a as [|x a IH]; simpl; [reflexivity | now rewrite IH]. Qed.

Lemma string_app_nil_r (a : string) : a ++ EmptyString = a.
Proof. induction a as [|x a IH]; simpl; [reflexivity | now rewrite IH]. Qed.

Lemma string_length_app (a b : string) :
  String.length (a ++ b) = String.length a + String.length b.
Proof. induction a as [|x a IH]; simpl; [reflexivity | now rewrite IH]. Qed.

Lemma prefix_app (p t : string) : prefix p (p ++ t) = true.
Proof.
  induction p as [|x p IH]; simpl.
  - destruct t; reflexivity.
  - destruct (ascii_dec x x); [exact IH | contradiction].
Qed.

Lemma prefix_split (p s : string) :
  prefix p s = true -> s = p ++ skip (String.length p) s.
Proof.
  revert s; induction p as [|x p IH]; intros s H; simpl.
  - destruct s; reflexivity.
  - destruct s as [|y s]; simpl in H; [discriminate|].
    destruct (ascii_dec x y) as [->|]; [|discriminate].
    now rewrite <- (IH s H).
Qed.

Lemma skip_app (p t : string) : skip (String.length p) (p ++ t) = t.
Proof. induction p as [|x p IH]; simpl; [destruct t; reflexivity | exact IH]. Qed.

Lemma drop_while_length (p : ascii -> bool) (s : string) :
  String.length (drop_while p s) <= String.length s.
Proof. induction s as [|x s IH]; simpl; [lia | destruct (p x); simpl; lia]. Qed.

Lemma take_drop_while (p : ascii -> bool) (s : string) :
  s = take_while p s ++ drop_while p s.
Proof.
  induction s as [|x s IH]; simpl; [reflexivity|].
  destruct (p x); simpl; [now rewrite <- IH | reflexivity].
Qed.

(** ** The scan of [re.sub] *)

Lemma match_key_prefix (alts : list string) (s k : string) :
  match_key alts s = Some k -> In k alts /\ prefix (k ++ "=") s = true.
Proof.
  induction alts as [|f alts IH]; simpl; [discriminate|].
  destruct (prefix (f ++ "=") s) eqn:E.
  - intros [= <-]; auto.
  - intros H; destruct (IH H); auto.
Qed.

Lemma match_key_split (alts : list string) (s k : string) :
  match_key alts s = Some k ->
  s = k ++ String "=" (skip (String.length k + 1) s).
Proof.
  intros H; apply match_key_prefix in H as [_ H].
  apply prefix_split in H.
  rewrite string_length_app in H; simpl in H.
  rewrite string_app_assoc in H; exact H.
Qed.

Lemma match_key_empty (alts : list string) : match_key alts EmptyString = None.
Proof.
  induction alts as [|f alts IH]; simpl; [reflexivity|].
  destruct f; exact IH.
Qed.

(** After a match the scan resumes strictly further in the message. *)
Lemma match_key_rest_length (alts : list string) (sep s k : string) :
  match_key alts s = Some k ->
  String.length (drop_while (value_char sep) (skip (String.length k + 1) s))
  < String.length s.
Proof.
  intros H; pose proof (match_key_split _ _ _ H) as E.
  pose proof (drop_while_length (value_char sep) (skip (String.length k + 1) s)).
  assert (String.length s = String.length k + S (String.length (skip (String.length k + 1) s))) as L.
  { rewrite E at 1. rewrite string_length_app. reflexivity. }
  lia.
Qed.

Lemma sub_loop_fuel (alts : list string) (r sep : string) (n m : nat) (s : string) :
  String.length s <= n -> String.length s <= m ->
  sub_loop n alts r sep s = sub_loop m alts r sep s.
Proof.
  revert m s; induction n as [|n IH]; intros m s Hn Hm.
  - destruct s; simpl in Hn; [|lia]. destruct m; simpl; [reflexivity|].
    now rewrite match_key_empty.
  - destruct m as [|m].
    + destruct s; simpl in Hm; [|lia]. simpl. now rewrite match_key_empty.
    + simpl. destruct (match_key alts s) as [k|] eqn:E.
      * pose proof (match_key_rest_length alts sep s k E).
        do 3 f_equal. apply IH; lia.
      * destruct s as [|c s]; [reflexivity|]. simpl in Hn, Hm.
        f_equal. apply IH; lia.
Qed.

(** The unfolding equation of [re_sub]. *)
Lemma re_sub_equation (alts : list string) (r sep s : string) :
  re_sub alts r sep s =
  match match_key alts s with
  | Some k =>
      k ++ "=" ++ r
        ++ re_sub alts r sep (drop_while (value_char sep) (skip (String.length k + 1) s))
  | None =>
      match s with
      | EmptyString => EmptyString
      | String c s' => String c (re_sub alts r sep s')
      end
  end.
Proof.
  unfold re_sub at 1. destruct s as [|c s'].
  - simpl. now rewrite match_key_empty.
  - cbn [String.length sub_loop].
    destruct (match_key alts (String c s')) as [k|] eqn:E.
    + pose proof (match_key_rest_length alts sep _ k E) as H; simpl in H.
      repeat f_equal; unfold re_sub; apply sub_loop_fuel; lia.
    + f_equal; unfold re_sub; apply sub_loop_fuel; lia.
Qed.

Lemma drop_while_value (sep v rest : string) :
  avoids sep v = true -> value_end sep rest ->
  drop_while (value_char sep) (v ++ rest) = rest.
Proof.
  intros Hv Hr; induction v as [|x v IH]; simpl in *.
  - destruct rest as [|c rest]; simpl; [reflexivity|].
    unfold value_char; simpl in Hr; now rewrite Hr.
  - apply andb_prop in Hv as [Hx Hv]. rewrite Hx. now apply IH.
Qed.

(** A match of key [k] at the head of the message with value [v]. *)
Lemma re_sub_match_head (alts : list string) (r sep k v rest : string) :
  match_key alts (k ++ String "=" (v ++ rest)) = Some k ->
  avoids sep v = true -> value_end sep rest ->
  re_sub alts r sep (k ++ String "=" (v ++ rest)) = k ++ "=" ++ r ++ re_sub alts r sep rest.
Proof.
  intros Hk Hv Hr. rewrite re_sub_equation, Hk.
  replace (String.length k + 1) with (String.length (k ++ "=")).
  2:{ rewrite string_length_app; reflexivity. }
  replace (k ++ String "=" (v ++ rest)) with ((k ++ "=") ++ (v ++ rest)).
  2:{ now rewrite string_app_assoc. }
  now rewrite skip_app, drop_while_value.
Qed.

Lemma match_key_first (k : string) (fs : list string) (t : string) :
  match_key (k :: fs) (k ++ String "=" t) = Some k.
Proof.
  simpl. replace (k ++ String "=" t) with ((k ++ "=") ++ t).
  - now rewrite prefix_app.
  - now rewrite string_app_assoc.
Qed.

(** ** Scanning across a separator *)

Section Separator.

Variables (alts : list string) (r sep : string).

(** The field names, and [=], contain no separator character. *)
Hypothesis alts_avoid : Forall (fun f => avoids sep f = true) alts.
Hypothesis eq_not_sep : in_separator sep "=" = false.

Lemma avoids_app (a b : string) :
  avoids sep (a ++ b) = avoids sep a && avoids sep b.
Proof. induction a as [|x a IH]; simpl; [reflexivity|]. now rewrite IH, andb_assoc. Qed.

Lemma avoids_skip (n : nat) (t : string) :
  avoids sep t = true -> avoids sep (skip n t) = true.
Proof.
  revert t; induction n as [|n IH]; intros t H; [exact H|].
  destruct t as [|x t]; [reflexivity|]. simpl in *.
  apply andb_prop in H as [_ H]; auto.
Qed.

Lemma prefix_app_sep (p t : string) (c : ascii) (rest : string) :
  avoids sep p = true -> in_separator sep c = true ->
  prefix p (t ++ String c rest) = prefix p t.
Proof.
  revert t; induction p as [|x p IH]; intros t Hp Hc.
  - destruct t; simpl; destruct rest; reflexivity.
  - simpl in Hp; apply andb_prop in Hp as [Hx Hp].
    destruct t as [|y t]; simpl.
    + destruct (ascii_dec x c) as [->|]; [|reflexivity].
      unfold value_char in Hx; rewrite Hc in Hx; discriminate.
    + destruct (ascii_dec x y); [now apply IH | reflexivity].
Qed.

Lemma key_eq_avoids (f : string) : avoids sep f = true -> avoids sep (f ++ "=") = true.
Proof.
  intros H; rewrite avoids_app, H; simpl. unfold value_char; now rewrite eq_not_sep.
Qed.

Lemma match_key_app_sep (t : string) (c : ascii) (rest : string) :
  in_separator sep c = true ->
  match_key alts (t ++ String c rest) = match_key alts t.
Proof.
  intros Hc; induction alts_avoid as [|f fs Hf Hfs IH]; simpl; [reflexivity|].
  rewrite prefix_app_sep by (auto using key_eq_avoids).
  destruct (prefix (f ++ "=") t); [reflexivity | exact (IH Hfs)].
Qed.

Lemma re_sub_sep_head (c : ascii) (rest : string) :
  in_separator sep c = true ->
  re_sub alts r sep (String c rest) = String c (re_sub alts r sep rest).
Proof.
  intros Hc. rewrite re_sub_equation.
  change (String c rest) with (EmptyString ++ String c rest).
  rewrite match_key_app_sep, match_key_empty by exact Hc. reflexivity.
Qed.

(** [re.sub] works token by token: a separator is never inside a match. *)
Lemma re_sub_app_sep (t : string) (c : ascii) (rest : string) :
  avoids sep t = true -> in_separator sep c = true ->
  re_sub alts r sep (t ++ String c rest)
  = re_sub alts r sep t ++ String c (re_sub alts r sep rest).
Proof.
  intros Ht Hc. remember (String.length t) as n eqn:En.
  revert t Ht En; induction n as [n IH] using lt_wf_ind; intros t Ht En.
  destruct (match_key alts t) as [k|] eqn:Ek.
  - pose proof (match_key_split _ _ _ Ek) as Et.
    set (a := skip (String.length k + 1) t) in Et.
    assert (Ha : avoids sep a = true) by (apply avoids_skip, Ht).
    assert (Ek' : match_key alts (k ++ String "=" (a ++ String c rest)) = Some k).
    { replace (k ++ String "=" (a ++ String c rest)) with (t ++ String c rest).
      - now rewrite match_key_app_sep.
      - rewrite Et at 1. now rewrite string_app_assoc. }
    replace (t ++ String c rest) with (k ++ String "=" (a ++ String c rest)).
    2:{ rewrite Et. now rewrite string_app_assoc. }
    rewrite (re_sub_match_head _ _ _ _ _ _ Ek' Ha) by exact Hc.
    rewrite Et, <- (string_app_nil_r a).
    rewrite (re_sub_match_head alts r sep k a EmptyString); [| |exact Ha|exact I].
    2:{ rewrite string_app_nil_r. rewrite <- Et. exact Ek. }
    rewrite re_sub_sep_head by exact Hc.
    change (re_sub alts r sep EmptyString) with EmptyString.
    now rewrite !string_app_assoc.
  - rewrite re_sub_equation, match_key_app_sep, Ek by exact Hc.
    destruct t as [|x t'].
    + reflexivity.
    + simpl. rewrite (re_sub_equation _ _ _ (String x t')), Ek.
      simpl in Ht; apply andb_prop in Ht as [_ Ht'].
      rewrite (IH (String.length t')); [reflexivity | simpl in En; lia | exact Ht' | reflexivity].
Qed.

End Separator.

(** ** Scanning one token *)

Lemma split_sep_token (sep t : string) : avoids sep t = true -> split_sep sep t = [t].
Proof.
  induction t as [|x t IH]; simpl; [reflexivity|].
  intros H; apply andb_prop in H as [Hx H]. unfold value_char in Hx.
  destruct (in_separator sep x); [discriminate|]. now rewrite IH.
Qed.

Lemma split_sep_app (sep t : string) (c : ascii) (rest : string) :
  avoids sep t = true -> in_separator sep c = true ->
  split_sep sep (t ++ String c rest) = t :: split_sep sep rest.
Proof.
  intros Ht Hc; induction t as [|x t IH]; simpl.
  - now rewrite Hc.
  - simpl in Ht; apply andb_prop in Ht as [Hx Ht]. unfold value_char in Hx.
    destruct (in_separator sep x); [discriminate|]. now rewrite IH.
Qed.

(** Every message is one token, or a token, a separator and the rest. *)
Lemma message_cases (sep s : string) :
  avoids sep s = true \/
  exists t c rest, s = t ++ String c rest /\ avoids sep t = true
                   /\ in_separator sep c = true.
Proof.
  induction s as [|x s IH]; simpl; [now left|].
  unfold value_char; destruct (in_separator sep x) eqn:Hx; simpl.
  - right; exists EmptyString, x, s; auto.
  - destruct IH as [H | (t & c & rest & -> & Ht & Hc)]; [now left|].
    right; exists (String x t), c, rest; simpl; unfold value_char; rewrite Hx; auto.
Qed.

Lemma message_length (t : string) (c : ascii) (rest : string) :
  String.length rest < String.length (t ++ String c rest).
Proof. rewrite string_length_app; simpl; lia. Qed.

Lemma key_of_app_eq (p x y : string) :
  key_of (p ++ String "=" x) = key_of (p ++ String "=" y).
Proof.
  unfold key_of; induction p as [|a p IH]; simpl; [reflexivity|].
  destruct (negb (Ascii.eqb a "=")); [now rewrite IH | reflexivity].
Qed.

Section Tokens.

Variables (alts : list string) (r sep : string).
Hypothesis alts_avoid : Forall (fun f => avoids sep f = true) alts.
Hypothesis eq_not_sep : in_separator sep "=" = false.

(** In a token the value of a match runs to the end of the token. *)
Lemma re_sub_token (t : string) :
  avoids sep t = true ->
  re_sub alts r sep t =
  match match_key alts t with
  | Some k => k ++ "=" ++ r
  | None =>
      match t with
      | EmptyString => EmptyString
      | String x t' => String x (re_sub alts r sep t')
      end
  end.
Proof.
  intros Ht. destruct (match_key alts t) as [k|] eqn:Ek.
  - pose proof (match_key_split _ _ _ Ek) as Et.
    set (a := skip (String.length k + 1) t) in Et.
    assert (Ha : avoids sep a = true) by (apply avoids_skip, Ht).
    rewrite Et, <- (string_app_nil_r a).
    rewrite (re_sub_match_head alts r sep k a EmptyString); [| |exact Ha|exact I].
    + change (re_sub alts r sep EmptyString) with EmptyString.
      now rewrite string_app_nil_r.
    + rewrite string_app_nil_r, <- Et; exact Ek.
  - rewrite re_sub_equation, Ek. reflexivity.
Qed.

Lemma re_sub_token_avoids (t : string) :
  avoids sep r = true -> avoids sep t = true -> avoids sep (re_sub alts r sep t) = true.
Proof.
  intros Hr; induction t as [|x t IH]; intros Ht.
  - reflexivity.
  - rewrite re_sub_token by exact Ht.
    destruct (match_key alts (String x t)) as [k|] eqn:Ek.
    + apply match_key_prefix in Ek as [Hin _].
      rewrite Forall_forall in alts_avoid.
      rewrite avoids_app, (alts_avoid k Hin); simpl.
      unfold value_char at 1; now rewrite eq_not_sep, Hr.
    + simpl in *. apply andb_prop in Ht as [Hx Ht]. rewrite Hx; simpl; auto.
Qed.

Lemma key_of_re_sub_token (t : string) :
  avoids sep t = true -> key_of (re_sub alts r sep t) = key_of t.
Proof.
  induction t as [|x t IH]; intros Ht; [reflexivity|].
  rewrite re_sub_token by exact Ht.
  destruct (match_key alts (String x t)) as [k|] eqn:Ek.
  - pose proof (match_key_split _ _ _ Ek) as E. rewrite E. apply key_of_app_eq.
  - simpl in Ht; apply andb_prop in Ht as [_ Ht].
    unfold key_of in *; simpl. destruct (negb (Ascii.eqb x "=")); [|reflexivity].
    now rewrite IH.
Qed.

End Tokens.

Lemma prefix_nil (s : string) : prefix EmptyString s = true.
Proof. destruct s; reflexivity. Qed.

Lemma prefix_key_agree (f p x y : string) :
  contains_char "=" f = false ->
  prefix (f ++ "=") (p ++ String "=" x) = prefix (f ++ "=") (p ++ String "=" y).
Proof.
  revert p; induction f as [|a f IH]; intros p Hf.
  - destruct p as [|b p]; cbn [String.append prefix]; [now rewrite !prefix_nil|].
    destruct (ascii_dec "=" b); [now rewrite !prefix_nil | reflexivity].
  - cbn [contains_char] in Hf; apply orb_false_elim in Hf as [Ha Hf].
    destruct p as [|b p]; cbn [String.append prefix].
    + destruct (ascii_dec a "=") as [->|]; [now rewrite Ascii.eqb_refl in Ha | reflexivity].
    + destruct (ascii_dec a b); [now apply IH | reflexivity].
Qed.

Lemma match_key_agree (alts : list string) (p x y : string) :
  Forall (fun f => contains_char "=" f = false) alts ->
  match_key alts (p ++ String "=" x) = match_key alts (p ++ String "=" y).
Proof.
  induction 1 as [|f fs Hf Hfs IH]; simpl; [reflexivity|].
  rewrite (prefix_key_agree f p x y Hf).
  destruct (prefix (f ++ "=") (p ++ String "=" y)); [reflexivity | exact IH].
Qed.

Section Idempotence.

Variables (alts : list string) (r sep : string).
Hypothesis alts_avoid : Forall (fun f => avoids sep f = true) alts.
Hypothesis alts_no_eq : Forall (fun f => contains_char "=" f = false) alts.
Hypothesis eq_not_sep : in_separator sep "=" = false.
Hypothesis r_avoids : avoids sep r = true.

(** Redacting a token keeps everything up to its first matched [=]. *)
Lemma re_sub_token_agree (t : string) :
  avoids sep t = true ->
  re_sub alts r sep t = t \/
  exists p x y, t = p ++ String "=" x /\ re_sub alts r sep t = p ++ String "=" y.
Proof.
  induction t as [|c t IH]; intros Ht; [now left|].
  rewrite re_sub_token by assumption.
  destruct (match_key alts (String c t)) as [k|] eqn:Ek.
  - right. exists k, (skip (String.length k + 1) (String c t)), r.
    split; [apply (match_key_split _ _ _ Ek) | reflexivity].
  - simpl in Ht; apply andb_prop in Ht as [_ Ht].
    destruct (IH Ht) as [-> | (p & x & y & Ex & Ey)]; [now left|].
    right; exists (String c p), x, y. rewrite Ex at 1. rewrite Ey. split; reflexivity.
Qed.

Lemma match_key_re_sub_token (t : string) :
  avoids sep t = true -> match_key alts (re_sub alts r sep t) = match_key alts t.
Proof.
  intros Ht. destruct (re_sub_token_agree t Ht) as [-> | (p & x & y & Ex & Ey)];
    [reflexivity|].
  rewrite Ey, Ex. now apply match_key_agree.
Qed.

Lemma re_sub_token_idem (t : string) :
  avoids sep t = true -> re_sub alts r sep (re_sub alts r sep t) = re_sub alts r sep t.
Proof.
  induction t as [|c t IH]; intros Ht; [reflexivity|].
  pose proof (match_key_re_sub_token _ Ht) as Hm.
  pose proof (re_sub_token alts r sep _ Ht) as E.
  destruct (match_key alts (String c t)) as [k|] eqn:Ek.
  - rewrite E in Hm |- *.
    change (k ++ "=" ++ r) with (k ++ String "=" r) in Hm |- *.
    assert (H1 : re_sub alts r sep (k ++ String "=" (r ++ EmptyString))
                 = k ++ "=" ++ r ++ re_sub alts r sep EmptyString).
    { apply re_sub_match_head; [now rewrite string_app_nil_r | exact r_avoids | exact I]. }
    change (re_sub alts r sep EmptyString) with EmptyString in H1.
    rewrite !string_app_nil_r in H1. exact H1.
  - rewrite E in Hm |- *. simpl in Ht; apply andb_prop in Ht as [_ Ht].
    rewrite re_sub_equation, Hm. now rewrite (IH Ht).
Qed.

Lemma re_sub_idem (s : string) :
  re_sub alts r sep (re_sub alts r sep s) = re_sub alts r sep s.
Proof.
  remember (String.length s) as n eqn:En.
  revert s En; induction n as [n IH] using lt_wf_ind; intros s En.
  destruct (message_cases sep s) as [Hs | (t & c & rest & -> & Ht & Hc)].
  - now apply re_sub_token_idem.
  - rewrite (re_sub_app_sep alts r sep alts_avoid eq_not_sep) by assumption.
    rewrite (re_sub_app_sep alts r sep alts_avoid eq_not_sep);
      [| now apply re_sub_token_avoids | exact Hc].
    rewrite re_sub_token_idem by exact Ht.
    rewrite (IH (String.length rest)); [reflexivity | | reflexivity].
    rewrite En; apply message_length.
Qed.

End Idempotence.

Lemma keys_re_sub (alts : list string) (r sep s : string) :
  Forall (fun f => avoids sep f = true) alts -> in_separator sep "=" = false ->
  avoids sep r = true ->
  keys sep (re_sub alts r sep s) = keys sep s.
Proof.
  intros Ha He Hr. remember (String.length s) as n eqn:En.
  revert s En; induction n as [n IH] using lt_wf_ind; intros s En.
  destruct (message_cases sep s) as [Hs | (t & c & rest & -> & Ht & Hc)].
  - unfold keys. rewrite !split_sep_token by (auto using re_sub_token_avoids).
    simpl. now rewrite key_of_re_sub_token.
  - rewrite (re_sub_app_sep alts r sep Ha He) by assumption.
    unfold keys. rewrite split_sep_app by (auto using re_sub_token_avoids).
    rewrite split_sep_app by assumption. simpl.
    rewrite key_of_re_sub_token by assumption. f_equal.
    apply (IH (String.length rest)); [rewrite En; apply message_length | reflexivity].
Qed.

(** [re.sub] splits at every separator, whatever precedes it. *)
Lemma re_sub_app_sep_any (alts : list string) (r sep s : string) (c : ascii) (rest : string) :
  Forall (fun f => avoids sep f = true) alts -> in_separator sep "=" = false ->
  in_separator sep c = true ->
  re_sub alts r sep (s ++ String c rest)
  = re_sub alts r sep s ++ String c (re_sub alts r sep rest).
Proof.
  intros Ha He Hc. remember (String.length s) as n eqn:En.
  revert s En; induction n as [n IH] using lt_wf_ind; intros s En.
  destruct (message_cases sep s) as [Hs | (t & c0 & s' & -> & Ht & Hc0)].
  - now apply re_sub_app_sep.
  - rewrite string_app_assoc. simpl.
    rewrite !(re_sub_app_sep alts r sep Ha He) by assumption.
    rewrite (IH (String.length s')); [ | rewrite En; apply message_length | reflexivity].
    rewrite (re_sub_app_sep alts r sep Ha He) by assumption. now rewrite string_app_assoc.
Qed.

Lemma re_sub_no_match (alts : list string) (r sep t : string) :
  no_match_in alts t = true -> re_sub alts r sep t = t.
Proof.
  induction t as [|x t IH]; intros H; [reflexivity|].
  simpl in H; rewrite re_sub_equation.
  destruct (match_key alts (String x t)); [discriminate|]. now rewrite IH.
Qed.

Lemma Forall_alternatives (P : string -> Prop) (fields : list string) :
  P EmptyString -> Forall P fields -> Forall P (alternatives fields).
Proof. intros H0 H; destruct fields; [constructor; auto | exact H]. Qed.

(** With no fields the only alternative is the empty group: a match is an [=]. *)
Lemma match_key_nofield (x : ascii) (s : string) :
  match_key (alternatives []) (String x s) =
  if Ascii.eqb x "=" then Some EmptyString else None.
Proof.
  cbn [alternatives match_key String.append prefix].
  destruct (ascii_dec "=" x) as [<-|Hx].
  - now rewrite prefix_nil.
  - rewrite (proj2 (Ascii.eqb_neq x "=")) by congruence. reflexivity.
Qed.

(** ** Formatter and main *)

Lemma usesTime_true : usesTime = true.
Proof. reflexivity. Qed.

Lemma format_equation (formatTime : nat -> string) (fields : list string) (r : LogRecord) :
  format formatTime fields r =
  (filter_datum fields REDACTION
     (formatMessage (set_asctime (formatTime (rec_created r)) (set_message (getMessage r) r)))
     SEPARATOR,
   set_asctime (formatTime (rec_created r)) (set_message (getMessage r) r)).
Proof. unfold format, base_format; rewrite usesTime_true; reflexivity. Qed.

Lemma map_option_map {A B C : Type} (f : B -> option C) (g : A -> B) (xs : list A) :
  map_option f (map g xs) = map_option (fun x => f (g x)) xs.
Proof. induction xs as [|x xs IH]; simpl; [reflexivity|]. now rewrite IH. Qed.

Lemma map_option_columns (fields row : list string) :
  List.length row = List.length fields ->
  map_option (column_pair fields row) (seq 0 (List.length fields))
  = Some (map (fun '(f, v) => f ++ "=" ++ v) (combine fields row)).
Proof.
  revert row; induction fields as [|f fs IH]; intros row Hl; [reflexivity|].
  destruct row as [|v vs]; [discriminate|]. simpl in Hl.
  cbn [List.length seq map_option].
  rewrite <- seq_shift, map_option_map.
  change (fun x => column_pair (f :: fs) (v :: vs) (S x)) with (column_pair fs vs).
  rewrite (IH vs) by lia. reflexivity.
Qed.

Lemma row_loop_frame (fields : list string) (rows : list (option (list string))) (w : World) :
  db_open (snd (row_loop fields rows w)) = db_open w /\
  cursor_open (snd (row_loop fields rows w)) = cursor_open w /\
  fst (row_loop fields rows w) <> inr ConnectError.
Proof.
  revert w; induction rows as [|[row|] rows IH]; intros w; simpl.
  - repeat split; discriminate.
  - destruct (main_message fields row) as [m|]; simpl.
    + unfold bind, log_info. destruct (IH {| db_open := db_open w; cursor_open := cursor_open w;
                                           logged := logged w ++ [m] |}) as (H1 & H2 & H3).
      repeat split; assumption.
    + repeat split; discriminate.
  - repeat split; discriminate.
Qed.

(** ** Tokens without [=] *)

Lemma prefix_key_contains_eq (f s : string) :
  prefix (f ++ "=") s = true -> contains_char "=" s = true.
Proof.
  revert s; induction f as [|a f IH]; intros s H.
  - destruct s as [|x s]; cbn [String.append prefix] in H; [discriminate|].
    destruct (ascii_dec "=" x) as [<-|]; [reflexivity | discriminate].
  - destruct s as [|x s]; cbn [String.append prefix] in H; [discriminate|].
    destruct (ascii_dec a x); [|discriminate].
    cbn [contains_char]. rewrite (IH s H). apply orb_true_r.
Qed.

Lemma no_match_without_eq (alts : list string) (s : string) :
  contains_char "=" s = false -> no_match_in alts s = true.
Proof.
  induction s as [|x s IH]; intros H; simpl.
  - now rewrite match_key_empty.
  - destruct (match_key alts (String x s)) as [k|] eqn:E.
    + apply match_key_prefix in E as [_ E]. apply prefix_key_contains_eq in E.
      simpl in E, H; rewrite E in H; discriminate.
    + simpl in H; apply orb_false_elim in H as [_ H]; auto.
Qed.

Lemma prefix_key_exact (f k v : string) :
  contains_char "=" f = false -> contains_char "=" k = false ->
  prefix (f ++ "=") (k ++ String "=" v) = String.eqb f k.
Proof.
  revert k; induction f as [|a f IH]; intros k Hf Hk.
  - destruct k as [|x k]; cbn [String.append prefix].
    + destruct (ascii_dec "=" "="); [apply prefix_nil | contradiction].
    + cbn [contains_char] in Hk; apply orb_false_elim in Hk as [Hx _].
      destruct (ascii_dec "=" x) as [<-|]; [now rewrite Ascii.eqb_refl in Hx | reflexivity].
  - cbn [contains_char] in Hf; apply orb_false_elim in Hf as [Ha Hf].
    destruct k as [|x k]; cbn [String.append prefix].
    + destruct (ascii_dec a "=") as [->|]; [now rewrite Ascii.eqb_refl in Ha | reflexivity].
    + cbn [contains_char] in Hk; apply orb_false_elim in Hk as [_ Hk].
      cbn [String.eqb]. destruct (ascii_dec a x) as [<-|Hne].
      * rewrite Ascii.eqb_refl; simpl; now apply IH.
      * rewrite (proj2 (Ascii.eqb_neq a x) Hne). reflexivity.
Qed.

Lemma match_key_exact (alts : list string) (k v : string) :
  Forall (fun f => contains_char "=" f = false) alts -> contains_char "=" k = false ->
  match_key alts (k ++ String "=" v)
  = if existsb (fun f => String.eqb f k) alts then Some k else None.
Proof.
  intros Ha Hk; induction Ha as [|f fs Hf Hfs IH]; simpl; [reflexivity|].
  rewrite (prefix_key_exact f k v Hf Hk).
  destruct (String.eqb f k) eqn:E; [apply String.eqb_eq in E; now subst | exact IH].
Qed.

Lemma existsb_ends_with (alts : list string) (x : ascii) (k : string) :
  existsb (fun f => ends_with f (String x k)) alts
  = existsb (fun f => String.eqb f (String x k)) alts
    || existsb (fun f => ends_with f k) alts.
Proof.
  induction alts as [|f fs IH]; [reflexivity|].
  cbn [existsb]. rewrite IH. cbn [ends_with].
  destruct (String.eqb f (String x k)), (ends_with f k),
    (existsb (fun f => String.eqb f (String x k)) fs),
    (existsb (fun f => ends_with f k) fs); reflexivity.
Qed.

Lemma existsb_ends_with_nil (alts : list string) :
  existsb (fun f => ends_with f EmptyString) alts
  = existsb (fun f => String.eqb f EmptyString) alts.
Proof.
  induction alts as [|f fs IH]; [reflexivity|].
  cbn [existsb]. rewrite IH. cbn [ends_with]. now rewrite orb_false_r.
Qed.

Lemma avoids_no_eq_token (sep k v : string) :
  in_separator sep "=" = false -> avoids sep k = true -> avoids sep v = true ->
  avoids sep (k ++ String "=" v) = true.
Proof.
  intros He Hk Hv. rewrite avoids_app, Hk; simpl. unfold value_char; now rewrite He, Hv.
Qed.

(** On one token [k=v] ([k], [v] without [=] or separator), the value is
    masked exactly when [k] ends with one of the alternatives. *)
Lemma re_sub_simple_token (alts : list string) (r sep k v : string) :
  Forall (fun f => contains_char "=" f = false) alts ->
  in_separator sep "=" = false ->
  contains_char "=" k = false -> contains_char "=" v = false ->
  avoids sep k = true -> avoids sep v = true ->
  re_sub alts r sep (k ++ String "=" v)
  = if existsb (fun f => ends_with f k) alts then k ++ "=" ++ r else k ++ String "=" v.
Proof.
  intros Ha He Hk Hv Hks Hvs. induction k as [|x k IH].
  - rewrite re_sub_token by (apply avoids_no_eq_token; auto).
    rewrite match_key_exact by assumption. rewrite existsb_ends_with_nil.
    destruct (existsb (fun f => String.eqb f EmptyString) alts); [reflexivity|].
    cbn [String.append]. now rewrite re_sub_no_match by (now apply no_match_without_eq).
  - cbn [contains_char] in Hk; apply orb_false_elim in Hk as [Hx Hk].
    assert (Hks' : avoids sep k = true).
    { simpl in Hks; apply andb_prop in Hks as [_ H]; exact H. }
    rewrite re_sub_token by (apply avoids_no_eq_token; assumption).
    rewrite match_key_exact by first [assumption | cbn [contains_char]; now rewrite Hx, Hk].
    rewrite existsb_ends_with.
    destruct (existsb (fun f => String.eqb f (String x k)) alts); [reflexivity|].
    simpl. rewrite (IH Hk Hks').
    destruct (existsb (fun f => ends_with f k) alts); reflexivity.
Qed.

Lemma match_key_in_fields (fields : list string) (k rest : string) :
  Forall (fun f => contains_char "=" f = false) fields -> In k fields ->
  match_key (alternatives fields) (k ++ String "=" rest) = Some k.
Proof.
  intros Hf Hk. destruct fields as [|f0 fs]; [destruct Hk|].
  change (alternatives (f0 :: fs)) with (f0 :: fs).
  rewrite match_key_exact; [| exact Hf | exact (proj1 (Forall_forall _ _) Hf k Hk)].
  replace (existsb (fun f => String.eqb f k) (f0 :: fs)) with true; [reflexivity|].
  symmetry; apply existsb_exists; exists k; split; [exact Hk | apply String.eqb_refl].
Qed.

Lemma filter_datum_field_token (fields : list string) (mask sep k v rest : string) :
  Forall (fun f => contains_char "=" f = false) fields -> In k fields ->
  avoids sep v = true -> value_end sep rest ->
  filter_datum fields mask (k ++ String "=" (v ++ rest)) sep
  = k ++ "=" ++ mask ++ filter_datum fields mask rest sep.
Proof.
  intros Hf Hk Hv Hr. unfold filter_datum.
  apply re_sub_match_head; [apply match_key_in_fields | |]; assumption.
Qed.

Lemma filter_datum_app_sep (fields : list string) (mask sep s : string) (c : ascii)
    (rest : string) :
  Forall (fun f => avoids sep f = true) fields -> in_separator sep "=" = false ->
  in_separator sep c = true ->
  filter_datum fields mask (s ++ String c rest) sep
  = filter_datum fields mask s sep ++ String c (filter_datum fields mask rest sep).
Proof.
  intros Hf He Hc. unfold filter_datum. apply re_sub_app_sep_any; try assumption.
  apply Forall_alternatives; [reflexivity | exact Hf].
Qed.

Lemma Forall_and_l {A : Type} (P Q : A -> Prop) (l : list A) :
  Forall (fun x => P x /\ Q x) l -> Forall P l.
Proof. apply Forall_impl. now intros x [H _]. Qed.

Lemma Forall_and_r {A : Type} (P Q : A -> Prop) (l : list A) :
  Forall (fun x => P x /\ Q x) l -> Forall Q l.
Proof. apply Forall_impl. now intros x [_ H]. Qed.

(** * Claims *)




(** C2 (counterexample): with no fields the group of the pattern is empty,
    so the pattern matches at every [=], and [filter_datum([], "***", "a=b", ";")] is not
    ["a=b"]. *)
Lemma filter_datum_nofields_not_identity :
  filter_datum [] "***" "a=b" ";" <> "a=b".
Proof. vm_compute. discriminate. Qed.

(** C2: with no fields, for every plain separator, [filter_datum] is the
    identity only on messages containing no [=]; a token [k=v] ([k] without
    [=], [v] without a separator character) becomes [k=] followed by the
    mask, so every value is masked. *)
Theorem filter_datum_nofields (mask sep m k v : string) :
  literal_separator sep = true ->
  contains_char "=" m = false -> contains_char "=" k = false -> avoids sep v = true ->
  filter_datum [] mask m sep = m /\
  filter_datum [] mask (k ++ String "=" v) sep = k ++ String "=" mask.
Proof.
  intros _ Hm Hk Hv. unfold filter_datum. split.
  - induction m as [|x m IH]; [reflexivity|].
    cbn [contains_char] in Hm; apply orb_false_elim in Hm as [Hx Hm].
    rewrite re_sub_equation, match_key_nofield, Hx. now rewrite IH.
  - induction k as [|x k IH].
    + rewrite <- (string_app_nil_r v).
      rewrite (re_sub_match_head (alternatives []) mask sep EmptyString v EmptyString);
        [| apply match_key_first | exact Hv | exact I].
      change (re_sub (alternatives []) mask sep EmptyString) with EmptyString.
      simpl. now rewrite string_app_nil_r.
    + cbn [contains_char] in Hk; apply orb_false_elim in Hk as [Hx Hk].
      cbn [String.append]. rewrite re_sub_equation, match_key_nofield, Hx.
      now rewrite IH.
Qed.

Lemma filter_datum_nofields_witness :
  (literal_separator ";" = true /\ contains_char "=" "no fields here" = false /\ contains_char "=" "name" = false /\
   avoids ";" "Bob" = true) /\
  (filter_datum [] "***" "no fields here" ";" = "no fields here" /\
   filter_datum [] "***" ("name" ++ String "=" "Bob") ";" = "name" ++ String "=" "***").
Proof.
  split; [repeat split | apply filter_datum_nofields; reflexivity].
Defined.

(** C5: a field with an empty value is still matched and the empty value
    replaced by the mask.  For a field [k] of the list (plain-text field
    names and separator, no field name with [=] or a separator character,
    [=] not a separator character), [k=] followed by a separator or by the
    end of the message becomes [k=] followed by the mask, both at the start
    of the message and after a separator character;
    [filter_datum(["email"], "XXX", "email=;user=a", ";")] is
    ["email=XXX;user=a"]. *)
Theorem filter_datum_empty_value (fields : list string) (k mask sep pre rest : string)
    (c : ascii) :
  literal_fields fields = true -> literal_separator sep = true ->
  Forall (fun f => contains_char "=" f = false /\ avoids sep f = true) fields ->
  in_separator sep "=" = false -> In k fields ->
  value_end sep rest -> in_separator sep c = true ->
  filter_datum fields mask (k ++ String "=" rest) sep
  = k ++ "=" ++ mask ++ filter_datum fields mask rest sep /\
  filter_datum fields mask (pre ++ String c (k ++ String "=" rest)) sep
  = filter_datum fields mask pre sep
      ++ String c (k ++ "=" ++ mask ++ filter_datum fields mask rest sep) /\
  filter_datum ["email"] "XXX" "email=;user=a" ";" = "email=XXX;user=a".
Proof.
  intros _ _ Hf He Hk Hr Hc.
  pose proof (filter_datum_field_token fields mask sep k EmptyString rest
                (Forall_and_l _ _ _ Hf) Hk eq_refl Hr) as E.
  cbn [String.append] in E.
  split; [exact E | split; [| vm_compute; reflexivity]].
  rewrite (filter_datum_app_sep fields mask sep pre c _ (Forall_and_r _ _ _ Hf) He Hc).
  now rewrite E.
Qed.

Lemma filter_datum_empty_value_witness :
  (literal_fields ["email"] = true /\ literal_separator ";" = true /\
   Forall (fun f => contains_char "=" f = false /\ avoids ";" f = true) ["email"] /\
   in_separator ";" "=" = false /\ In "email" ["email"] /\
   value_end ";" ";user=a" /\ in_separator ";" ";" = true) /\
  (filter_datum ["email"] "XXX" ("email" ++ String "=" ";user=a") ";"
   = "email" ++ "=" ++ "XXX" ++ filter_datum ["email"] "XXX" ";user=a" ";" /\
   filter_datum ["email"] "XXX" ("id=1" ++ String ";" ("email" ++ String "=" ";user=a")) ";"
   = filter_datum ["email"] "XXX" "id=1" ";"
       ++ String ";" ("email" ++ "=" ++ "XXX" ++ filter_datum ["email"] "XXX" ";user=a" ";") /\
   filter_datum ["email"] "XXX" "email=;user=a" ";" = "email=XXX;user=a").
Proof.
  split; [repeat split; repeat constructor; now left|].
  apply filter_datum_empty_value; repeat constructor.
Defined.

(** C10: when the value of a matched field contains [=], the whole run from
    the key's [=] up to the next separator or the end of the message is
    masked.  For a field [k] of the list (plain-text field names and
    separator, no field name with [=] or a separator character, [=] not a
    separator character) and a value [v] without a separator character,
    [k=v] followed by a separator or by the end of the message becomes [k=]
    followed by the mask, at the start of the message and after a separator
    character; [filter_datum(["password"], "***", "password=a=b;x=1", ";")]
    is ["password=***;x=1"]. *)
Theorem filter_datum_value_with_eq (fields : list string) (k mask sep pre v rest : string)
    (c : ascii) :
  literal_fields fields = true -> literal_separator sep = true ->
  Forall (fun f => contains_char "=" f = false /\ avoids sep f = true) fields ->
  in_separator sep "=" = false -> In k fields ->
  avoids sep v = true -> value_end sep rest -> in_separator sep c = true ->
  filter_datum fields mask (k ++ String "=" (v ++ rest)) sep
  = k ++ "=" ++ mask ++ filter_datum fields mask rest sep /\
  filter_datum fields mask (pre ++ String c (k ++ String "=" (v ++ rest))) sep
  = filter_datum fields mask pre sep
      ++ String c (k ++ "=" ++ mask ++ filter_datum fields mask rest sep) /\
  filter_datum ["password"] "***" "password=a=b;x=1" ";" = "password=***;x=1".
Proof.
  intros _ _ Hf He Hk Hv Hr Hc.
  pose proof (filter_datum_field_token fields mask sep k v rest
                (Forall_and_l _ _ _ Hf) Hk Hv Hr) as E.
  split; [exact E | split; [| vm_compute; reflexivity]].
  rewrite (filter_datum_app_sep fields mask sep pre c _ (Forall_and_r _ _ _ Hf) He Hc).
  now rewrite E.
Qed.

Lemma filter_datum_value_with_eq_witness :
  (literal_fields ["name"; "password"] = true /\ literal_separator ";" = true /\
   Forall (fun f => contains_char "=" f = false /\ avoids ";" f = true) ["name"; "password"] /\
   in_separator ";" "=" = false /\ In "password" ["name"; "password"] /\
   avoids ";" "a=b" = true /\ value_end ";" ";x=1" /\ in_separator ";" ";" = true) /\
  (filter_datum ["name"; "password"] "***" ("password" ++ String "=" ("a=b" ++ ";x=1")) ";"
   = "password" ++ "=" ++ "***" ++ filter_datum ["name"; "password"] "***" ";x=1" ";" /\
   filter_datum ["name"; "password"] "***"
     ("id=7" ++ String ";" ("password" ++ String "=" ("a=b" ++ ";x=1"))) ";"
   = filter_datum ["name"; "password"] "***" "id=7" ";"
       ++ String ";" ("password" ++ "=" ++ "***"
                      ++ filter_datum ["name"; "password"] "***" ";x=1" ";") /\
   filter_datum ["password"] "***" "password=a=b;x=1" ";" = "password=***;x=1").
Proof.
  split; [repeat split; try (right; left; reflexivity); repeat constructor|].
  apply filter_datum_value_with_eq; try (right; left; reflexivity); repeat constructor.
Defined.

(** C4 (counterexample): with a mask that contains the separator,
    redacting twice differs from redacting once:
    [filter_datum(["name"], ";name=x", "name=1", ";")] is ["name=;name=x"],
    and redacting that again gives ["name=;name=x;name=;name=x"]. *)
Lemma filter_datum_not_idempotent :
  filter_datum ["name"] ";name=x" (filter_datum ["name"] ";name=x" "name=1" ";") ";"
  <> filter_datum ["name"] ";name=x" "name=1" ";".
Proof. vm_compute. discriminate. Qed.

(** C4 (amended): for plain-text field names and separator, when no field
    name contains [=] or a separator character,
    the separator does not contain [=] and the mask contains no separator
    character, [filter_datum] is idempotent. *)
Theorem filter_datum_idempotent (fields : list string) (mask sep m : string) :
  literal_fields fields = true -> literal_separator sep = true ->
  Forall (fun f => avoids sep f = true) fields ->
  Forall (fun f => contains_char "=" f = false) fields ->
  in_separator sep "=" = false -> avoids sep mask = true ->
  filter_datum fields mask (filter_datum fields mask m sep) sep = filter_datum fields mask m sep.
Proof.
  intros _ _ Ha Hn He Hm. unfold filter_datum.
  apply re_sub_idem; try assumption.
  - apply Forall_alternatives; [reflexivity | exact Ha].
  - apply Forall_alternatives; [reflexivity | exact Hn].
Qed.

Lemma filter_datum_idempotent_witness :
  (literal_fields PII_FIELDS = true /\ literal_separator ";" = true /\
   Forall (fun f => avoids ";" f = true) PII_FIELDS /\
   Forall (fun f => contains_char "=" f = false) PII_FIELDS /\
   in_separator ";" "=" = false /\ avoids ";" "***" = true) /\
  filter_datum PII_FIELDS "***" (filter_datum PII_FIELDS "***" "name=Bob;ip=1;email=a@b" ";") ";"
  = filter_datum PII_FIELDS "***" "name=Bob;ip=1;email=a@b" ";".
Proof.
  split; [repeat split; repeat constructor | apply filter_datum_idempotent; repeat constructor].
Defined.

(** C6 (counterexample): a mask containing the separator adds a token:
    the keys of [filter_datum(["a"], ";b=1", "a=1", ";")] are [a] and [b],
    those of ["a=1"] only [a]. *)
Lemma filter_datum_mask_adds_key :
  keys ";" (filter_datum ["a"] ";b=1" "a=1" ";") <> keys ";" "a=1".
Proof. vm_compute. discriminate. Qed.

(** C6 (amended): for plain-text field names and separator, when the field
    names and the mask contain no separator
    character and the separator does not contain [=], the keys of the
    output (the text before the first [=] of each separator-delimited
    token), in order, are those of the input, for every message. *)
Theorem filter_datum_keeps_keys (fields : list string) (mask sep m : string) :
  literal_fields fields = true -> literal_separator sep = true ->
  Forall (fun f => avoids sep f = true) fields -> in_separator sep "=" = false ->
  avoids sep mask = true ->
  keys sep (filter_datum fields mask m sep) = keys sep m.
Proof.
  intros _ _ Ha He Hm. unfold filter_datum. apply keys_re_sub; try assumption.
  apply Forall_alternatives; [reflexivity | exact Ha].
Qed.

Lemma filter_datum_keeps_keys_witness :
  (literal_fields PII_FIELDS = true /\ literal_separator ";" = true /\
   Forall (fun f => avoids ";" f = true) PII_FIELDS /\ in_separator ";" "=" = false /\
   avoids ";" "***" = true) /\
  keys ";" (filter_datum PII_FIELDS "***" "name=Bob;username=x;ip=a=b" ";")
  = keys ";" "name=Bob;username=x;ip=a=b".
Proof.
  split; [repeat split; repeat constructor | apply filter_datum_keeps_keys; repeat constructor].
Defined.







(** C8 (counterexample): [main] does not join the column pairs with
    [RedactingFormatter.SEPARATOR] ([;]) but with ["; "]. *)
Lemma main_message_not_separator :
  main_message ["name"; "email"] ["bob"; "bob@x.com"]
  <> Some (py_join SEPARATOR ["name=bob"; "email=bob@x.com"]).
Proof. vm_compute. discriminate. Qed.

(** C8 (amended): for every row with one value per column, [main] builds
    the message by joining the row's [column=value] pairs with ["; "], the
    separator [;] of the formatter followed by a space. *)
Theorem main_message_join (fields row : list string) :
  List.length row = List.length fields ->
  main_message fields row
  = Some (py_join (SEPARATOR ++ " ") (map (fun '(f, v) => f ++ "=" ++ v) (combine fields row))).
Proof.
  intros Hl. unfold main_message. now rewrite map_option_columns.
Qed.

Lemma main_message_join_witness :
  List.length ["bob"; "bob@x.com"] = List.length ["name"; "email"] /\
  main_message ["name"; "email"] ["bob"; "bob@x.com"]
  = Some (py_join (SEPARATOR ++ " ")
            (map (fun '(f, v) => f ++ "=" ++ v) (combine ["name"; "email"] ["bob"; "bob@x.com"]))).
Proof. split; [reflexivity | apply main_message_join; reflexivity]. Defined.

(** C9 (counterexample): when fetching a row raises, the error leaves
    [main] with the cursor and the connection still open. *)
Lemma main_leaks_on_fetch_error :
  fst (main failing_connector initial_world) = inr FetchError /\
  db_open (snd (main failing_connector initial_world)) = true /\
  cursor_open (snd (main failing_connector initial_world)) = true.
Proof. vm_compute. repeat split. Qed.

(** C9 (amended): [main] closes the cursor and the connection only when the
    loop over the rows ends normally; an error raised by [execute], by
    fetching a row or by a short row leaves both open, and a failed
    [connect] opens nothing. *)
Theorem main_resources (c : Connector) :
  match main c initial_world with
  | (inl _, w) => db_open w = false /\ cursor_open w = false
  | (inr ConnectError, w) => db_open w = false /\ cursor_open w = false
  | (inr _, w) => db_open w = true /\ cursor_open w = true
  end.
Proof.
  unfold main, get_db, execute.
  destruct (connect_ok c); [|split; reflexivity].
  destruct (execute_ok c); [|split; reflexivity].
  cbv [bind set_db set_cursor ret initial_world db_open cursor_open logged].
  set (w0 := {| db_open := true; cursor_open := true; logged := [] |}).
  destruct (row_loop_frame (description c) (fetches c) w0) as (H1 & H2 & H3).
  destruct (row_loop (description c) (fetches c) w0) as [[u|e] w] eqn:E;
    simpl in H1, H2, H3.
  - split; reflexivity.
  - destruct e; [contradiction H3; reflexivity | split; assumption ..].
Qed.

(** * Further properties of the code *)

(** ** The line logged for a row *)

Lemma contains_char_app (a : ascii) (s t : string) :
  contains_char a (s ++ t) = contains_char a s || contains_char a t.
Proof. induction s as [|x s IH]; simpl; [reflexivity|]. now rewrite IH, orb_assoc. Qed.

Lemma ends_with_after_space (f h0 c : string) :
  contains_char " " f = false -> ends_with f ((h0 ++ " ") ++ c) = ends_with f c.
Proof.
  intros Hf. induction h0 as [|x h0 IH].
  - cbn [String.append ends_with].
    destruct (String.eqb f (String " " c)) eqn:E; [|reflexivity].
    apply String.eqb_eq in E; subst f. cbn [contains_char] in Hf.
    now rewrite Ascii.eqb_refl in Hf.
  - cbn [String.append ends_with]. cbn [String.append] in IH. rewrite IH.
    destruct (String.eqb f (String x ((h0 ++ " ") ++ c))) eqn:E; [|reflexivity].
    apply String.eqb_eq in E; subst f.
    cbn [contains_char] in Hf. rewrite !contains_char_app in Hf; cbn [contains_char] in Hf.
    rewrite Ascii.eqb_refl in Hf.
    destruct (Ascii.eqb x " "), (contains_char " " h0); simpl in Hf; discriminate.
Qed.

Lemma existsb_ends_with_after_space (alts : list string) (h0 c : string) :
  Forall (fun f => contains_char " " f = false) alts ->
  existsb (fun f => ends_with f ((h0 ++ " ") ++ c)) alts = existsb (fun f => ends_with f c) alts.
Proof.
  induction 1 as [|f fs Hf Hfs IH]; [reflexivity|].
  cbn [existsb]. now rewrite ends_with_after_space, IH.
Qed.

Section Row.

Variables (fields : list string) (r sep : string).
Hypothesis fields_no_eq : Forall (fun f => contains_char "=" f = false) (alternatives fields).
Hypothesis fields_avoid : Forall (fun f => avoids sep f = true) (alternatives fields).
Hypothesis fields_no_space : Forall (fun f => contains_char " " f = false) (alternatives fields).
Hypothesis eq_not_sep : in_separator sep "=" = false.
Hypothesis space_not_sep : in_separator sep " " = false.
Hypothesis semicolon_sep : in_separator sep ";" = true.

Lemma re_sub_header_pair (h0 c v : string) :
  contains_char "=" h0 = false -> avoids sep h0 = true -> simple_pair sep (c, v) ->
  re_sub (alternatives fields) r sep ((h0 ++ " ") ++ (c ++ "=" ++ v))
  = (h0 ++ " ") ++ redacted_pair fields r (c, v).
Proof.
  intros Hh Hhs (Hc & Hv & Hcs & Hvs).
  replace ((h0 ++ " ") ++ (c ++ "=" ++ v)) with (((h0 ++ " ") ++ c) ++ String "=" v)
    by (now rewrite !string_app_assoc).
  rewrite re_sub_simple_token; try assumption.
  - unfold redacted_pair. rewrite existsb_ends_with_after_space by assumption.
    destruct (existsb (fun f => ends_with f c) (alternatives fields));
      now rewrite !string_app_assoc.
  - rewrite !contains_char_app, Hh, Hc. reflexivity.
  - rewrite !avoids_app, Hhs, Hcs. simpl. unfold value_char; now rewrite space_not_sep.
Qed.

Lemma re_sub_header_pairs (ps : list (string * string)) (h0 : string) :
  contains_char "=" h0 = false -> avoids sep h0 = true -> Forall (simple_pair sep) ps ->
  re_sub (alternatives fields) r sep
    ((h0 ++ " ") ++ py_join "; " (map (fun '(f, v) => f ++ "=" ++ v) ps))
  = (h0 ++ " ") ++ py_join "; " (map (redacted_pair fields r) ps).
Proof.
  intros Hh Hhs Hps. revert h0 Hh Hhs.
  induction Hps as [|[c v] ps Hp Hps IH]; intros h0 Hh Hhs.
  - cbn [map py_join]. rewrite string_app_nil_r. apply re_sub_no_match, no_match_without_eq.
    rewrite contains_char_app, Hh. reflexivity.
  - destruct ps as [|p' ps'].
    + cbn [map py_join]. now apply re_sub_header_pair.
    + change (py_join "; " (map (fun '(f, v0) => f ++ "=" ++ v0) ((c, v) :: p' :: ps')))
        with ((c ++ "=" ++ v) ++ "; "
              ++ py_join "; " (map (fun '(f, v0) => f ++ "=" ++ v0) (p' :: ps'))).
      change (py_join "; " (map (redacted_pair fields r) ((c, v) :: p' :: ps')))
        with (redacted_pair fields r (c, v) ++ "; "
              ++ py_join "; " (map (redacted_pair fields r) (p' :: ps'))).
      set (J := py_join "; " (map (fun '(f, v0) => f ++ "=" ++ v0) (p' :: ps'))).
      set (J' := py_join "; " (map (redacted_pair fields r) (p' :: ps'))).
      replace ((h0 ++ " ") ++ ((c ++ "=" ++ v) ++ "; " ++ J))
        with (((h0 ++ " ") ++ (c ++ "=" ++ v)) ++ String ";" ((EmptyString ++ " ") ++ J))
        by (now rewrite !string_app_assoc).
      destruct Hp as (Hc & Hv & Hcs & Hvs).
      rewrite (re_sub_app_sep _ r sep fields_avoid eq_not_sep).
      * rewrite re_sub_header_pair by (try split; auto).
        unfold J, J'. rewrite (IH EmptyString) by reflexivity.
        now rewrite !string_app_assoc.
      * rewrite !avoids_app, Hhs, Hcs; simpl. unfold value_char.
        now rewrite space_not_sep, eq_not_sep, Hvs.
      * exact semicolon_sep.
Qed.

End Row.

Lemma Forall_combine_simple (sep : string) (cols row : list string) :
  Forall (fun c => contains_char "=" c = false /\ avoids sep c = true) cols ->
  Forall (fun v => contains_char "=" v = false /\ avoids sep v = true) row ->
  Forall (simple_pair sep) (combine cols row).
Proof.
  intros Hc; revert row; induction Hc as [|c cols [Hc1 Hc2] Hcs IH]; intros row Hr;
    [constructor|].
  destruct Hr as [|v row [Hv1 Hv2] Hrs]; simpl; constructor; auto.
  repeat split; assumption.
Qed.

Lemma contains_char_spaces (a : ascii) (n : nat) :
  Ascii.eqb " " a = false -> contains_char a (spaces n) = false.
Proof.
  intros Ha; induction n as [|n IH]; cbn [spaces contains_char]; [reflexivity|].
  now rewrite Ha, IH.
Qed.

Lemma avoids_spaces (n : nat) : avoids SEPARATOR (spaces n) = true.
Proof. induction n as [|n IH]; simpl; [reflexivity|]. exact IH. Qed.

Lemma PII_no_eq : Forall (fun f => contains_char "=" f = false) (alternatives PII_FIELDS).
Proof. repeat constructor. Qed.

Lemma PII_avoid : Forall (fun f => avoids SEPARATOR f = true) (alternatives PII_FIELDS).
Proof. repeat constructor. Qed.

Lemma PII_no_space : Forall (fun f => contains_char " " f = false) (alternatives PII_FIELDS).
Proof. repeat constructor. Qed.

Lemma formatMessage_info (formatTime : nat -> string) (created : nat) (m : string) :
  let r := info_record created m in
  formatMessage (set_asctime (formatTime (rec_created r)) (set_message (getMessage r) r))
  = (("[HOLBERTON] user_data INFO " ++ ljust 15 (formatTime created) ++ ":") ++ " ") ++ m.
Proof.
  cbn [formatMessage info_record set_asctime set_message getMessage
       rec_name rec_levelname rec_asctime rec_message rec_created rec_msg attr].
  rewrite !string_app_assoc. reflexivity.
Qed.


(** ** filter_datum *)



(** A message with no ['='] is returned unchanged, for all plain-text
    field names (even none), masks and plain separators: every alternative
    needs the [=] after it. *)
Theorem filter_datum_no_eq (fields : list string) (mask message sep : string) :
  literal_fields fields = true -> literal_separator sep = true ->
  contains_char "=" message = false -> filter_datum fields mask message sep = message.
Proof.
  intros _ _ H. unfold filter_datum. apply re_sub_no_match, no_match_without_eq, H.
Qed.

Lemma filter_datum_no_eq_witness :
  (literal_fields [] = true /\ literal_separator ";" = true /\
   contains_char "=" "hello; world" = false) /\
  filter_datum [] "***" "hello; world" ";" = "hello; world".
Proof. split; [repeat split | apply filter_datum_no_eq; reflexivity]. Defined.

(** [filter_datum] works token by token: at a separator character the
    result is the filtered text before it, the separator character, and the
    filtered text after it (plain-text field names and separator, fields
    without separator characters, ['='] no separator character). *)
Theorem filter_datum_split (fields : list string) (mask sep s : string) (c : ascii)
    (rest : string) :
  literal_fields fields = true -> literal_separator sep = true ->
  Forall (fun f => avoids sep f = true) fields -> in_separator sep "=" = false ->
  in_separator sep c = true ->
  filter_datum fields mask (s ++ String c rest) sep
  = filter_datum fields mask s sep ++ String c (filter_datum fields mask rest sep).
Proof.
  intros _ _. apply filter_datum_app_sep.
Qed.

Lemma filter_datum_split_witness :
  (literal_fields ["name"] = true /\ literal_separator ";" = true /\
   Forall (fun f => avoids ";" f = true) ["name"] /\ in_separator ";" "=" = false /\
   in_separator ";" ";" = true) /\
  filter_datum ["name"] "***" ("a=name=1" ++ String ";" "name=2") ";"
  = filter_datum ["name"] "***" "a=name=1" ";" ++ String ";" (filter_datum ["name"] "***" "name=2" ";").
Proof.
  split; [repeat split; repeat constructor|].
  apply filter_datum_split; repeat constructor.
Defined.

(** ** The line logged for a row *)

(** For a row as long as the column list, with column names, values and the
    formatted time free of ['='] and [;], the message [main] builds is
    formatted by [RedactingFormatter(PII_FIELDS)] as the header followed by
    the column pairs joined with ["; "], each value replaced by [***]
    exactly when its column name ends with one of [PII_FIELDS]. *)
Theorem logged_line (formatTime : nat -> string) (created : nat) (cols row : list string) :
  List.length row = List.length cols ->
  Forall (fun c => contains_char "=" c = false /\ avoids SEPARATOR c = true) cols ->
  Forall (fun v => contains_char "=" v = false /\ avoids SEPARATOR v = true) row ->
  contains_char "=" (formatTime created) = false ->
  avoids SEPARATOR (formatTime created) = true ->
  exists m, main_message cols row = Some m /\
  fst (format formatTime PII_FIELDS (info_record created m))
  = "[HOLBERTON] user_data INFO " ++ ljust 15 (formatTime created) ++ ": "
    ++ py_join "; " (map (redacted_pair PII_FIELDS REDACTION) (combine cols row)).
Proof.
  intros Hlen Hc Hr Ht1 Ht2.
  eexists; split; [rewrite main_message_join by exact Hlen; reflexivity|].
  rewrite format_equation. cbn [fst]. rewrite formatMessage_info. unfold filter_datum.
  rewrite (re_sub_header_pairs PII_FIELDS REDACTION SEPARATOR);
    try first [exact PII_no_eq | exact PII_avoid | exact PII_no_space | reflexivity
              | apply Forall_combine_simple; assumption].
  - now rewrite !string_app_assoc.
  - unfold ljust. rewrite !contains_char_app, Ht1, contains_char_spaces by reflexivity.
    reflexivity.
  - unfold ljust. rewrite !avoids_app, Ht2, avoids_spaces. reflexivity.
Qed.

Lemma logged_line_witness :
  (List.length ["Bob"; "bob@x.com"] = List.length ["name"; "email"] /\
   Forall (fun c => contains_char "=" c = false /\ avoids SEPARATOR c = true) ["name"; "email"] /\
   Forall (fun v => contains_char "=" v = false /\ avoids SEPARATOR v = true) ["Bob"; "bob@x.com"] /\
   contains_char "=" (sample_time 0) = false /\ avoids SEPARATOR (sample_time 0) = true) /\
  exists m, main_message ["name"; "email"] ["Bob"; "bob@x.com"] = Some m /\
  fst (format sample_time PII_FIELDS (info_record 0 m))
  = "[HOLBERTON] user_data INFO " ++ ljust 15 (sample_time 0) ++ ": "
    ++ py_join "; " (map (redacted_pair PII_FIELDS REDACTION)
                       (combine ["name"; "email"] ["Bob"; "bob@x.com"])).
Proof.
  split; [repeat split; repeat constructor|].
  apply logged_line; repeat constructor.
Defined.

(** ** main *)

Lemma map_option_columns_le (fields row : list string) :
  List.length fields <= List.length row ->
  map_option (column_pair fields row) (seq 0 (List.length fields))
  = Some (map (fun '(f, v) => f ++ "=" ++ v) (combine fields row)).
Proof.
  revert row; induction fields as [|f fs IH]; intros row Hl; [reflexivity|].
  destruct row as [|v vs]; [simpl in Hl; lia|]. simpl in Hl.
  cbn [List.length seq map_option].
  rewrite <- seq_shift, map_option_map.
  change (fun x => column_pair (f :: fs) (v :: vs) (S x)) with (column_pair fs vs).
  rewrite (IH vs) by lia. reflexivity.
Qed.

Lemma map_option_none {A B : Type} (f : A -> option B) (xs : list A) (x : A) :
  In x xs -> f x = None -> map_option f xs = None.
Proof.
  intros Hin Hx; induction xs as [|y ys IH]; [destruct Hin|].
  destruct Hin as [-> | Hin]; simpl.
  - now rewrite Hx.
  - rewrite (IH Hin). now destruct (f y).
Qed.

Lemma row_loop_rows (fields : list string) (rows : list (list string))
    (tail : list (option (list string))) (w : World) :
  Forall (fun row => List.length row = List.length fields) rows ->
  row_loop fields (map Some rows ++ tail) w
  = row_loop fields tail {| db_open := db_open w; cursor_open := cursor_open w;
                            logged := logged w ++ map (row_message fields) rows |}.
Proof.
  intros Hrows; revert w; induction Hrows as [|row rows Hrow Hrows IH]; intros w.
  - cbn [map List.app]. rewrite app_nil_r. now destruct w.
  - cbn [map List.app row_loop].
    rewrite main_message_join by exact Hrow.
    unfold bind at 1, log_info. rewrite IH. cbn [db_open cursor_open logged].
    now rewrite <- app_assoc.
Qed.

Lemma main_unfold (c : Connector) :
  connect_ok c = true -> execute_ok c = true ->
  main c initial_world
  = match row_loop (description c) (fetches c)
            {| db_open := true; cursor_open := true; logged := [] |} with
    | (inl _, w) => (inl tt, {| db_open := false; cursor_open := false; logged := logged w |})
    | (inr e, w) => (inr e, w)
    end.
Proof.
  intros Hc He. unfold main, get_db, execute. rewrite Hc, He.
  cbv [bind set_db set_cursor ret initial_world db_open cursor_open logged].
  destruct (row_loop (description c) (fetches c) _) as [[[]|e] w]; reflexivity.
Qed.

(** When the connection and the query succeed and every row has one value
    per column, [main] logs one message per row, in order, and closes the
    cursor and the connection. *)
Theorem main_success (c : Connector) (rows : list (list string)) :
  connect_ok c = true -> execute_ok c = true -> fetches c = map Some rows ->
  Forall (fun row => List.length row = List.length (description c)) rows ->
  main c initial_world
  = (inl tt, {| db_open := false; cursor_open := false;
                logged := map (row_message (description c)) rows |}).
Proof.
  intros Hc He Hf Hrows. rewrite main_unfold by assumption.
  rewrite Hf, <- (app_nil_r (map Some rows)), row_loop_rows by exact Hrows.
  reflexivity.
Qed.

Lemma main_success_witness :
  (connect_ok sample_connector = true /\ execute_ok sample_connector = true /\
   fetches sample_connector = map Some [["bob"; "bob@x.com"]; ["eve"; "eve@x.com"]] /\
   Forall (fun row => List.length row = List.length (description sample_connector))
     [["bob"; "bob@x.com"]; ["eve"; "eve@x.com"]]) /\
  main sample_connector initial_world
  = (inl tt, {| db_open := false; cursor_open := false;
                logged := map (row_message (description sample_connector))
                            [["bob"; "bob@x.com"]; ["eve"; "eve@x.com"]] |}).
Proof.
  split; [repeat split; repeat constructor|].
  apply main_success; repeat constructor.
Defined.

(** A fetch that raises after some complete rows: the messages of those rows
    stay logged, [FetchError] reaches the caller, and the cursor and the
    connection are left open. *)
Theorem main_fetch_error (c : Connector) (rows : list (list string))
    (rest : list (option (list string))) :
  connect_ok c = true -> execute_ok c = true -> fetches c = (map Some rows ++ None :: rest)%list ->
  Forall (fun row => List.length row = List.length (description c)) rows ->
  main c initial_world
  = (inr FetchError, {| db_open := true; cursor_open := true;
                        logged := map (row_message (description c)) rows |}).
Proof.
  intros Hc He Hf Hrows. rewrite main_unfold by assumption.
  rewrite Hf, row_loop_rows by exact Hrows. reflexivity.
Qed.

Lemma main_fetch_error_witness :
  (connect_ok failing_connector = true /\ execute_ok failing_connector = true /\
   fetches failing_connector = (map Some [["bob"; "bob@x.com"]] ++ None :: [])%list /\
   Forall (fun row => List.length row = List.length (description failing_connector))
     [["bob"; "bob@x.com"]]) /\
  main failing_connector initial_world
  = (inr FetchError, {| db_open := true; cursor_open := true;
                        logged := map (row_message (description failing_connector))
                                    [["bob"; "bob@x.com"]] |}).
Proof.
  split; [repeat split; repeat constructor|].
  apply (main_fetch_error failing_connector [["bob"; "bob@x.com"]] []); try reflexivity; repeat constructor.
Defined.

(** A row with fewer values than columns: [row[i]] raises [IndexError]
    before anything is logged for it; the messages of the earlier rows stay
    logged and the cursor and the connection are left open. *)
Theorem main_short_row (c : Connector) (rows : list (list string)) (row : list string)
    (rest : list (option (list string))) :
  connect_ok c = true -> execute_ok c = true ->
  fetches c = (map Some rows ++ Some row :: rest)%list ->
  Forall (fun row => List.length row = List.length (description c)) rows ->
  List.length row < List.length (description c) ->
  main c initial_world
  = (inr IndexError, {| db_open := true; cursor_open := true;
                        logged := map (row_message (description c)) rows |}).
Proof.
  intros Hc He Hf Hrows Hlen. rewrite main_unfold by assumption.
  rewrite Hf, row_loop_rows by exact Hrows. cbn [row_loop].
  replace (main_message (description c) row) with (@None string); [reflexivity|].
  unfold main_message.
  rewrite (map_option_none _ _ (List.length row)); [reflexivity | apply in_seq; lia |].
  unfold column_pair. rewrite (proj2 (nth_error_None row _)) by lia.
  now destruct (nth_error (description c) (List.length row)).
Qed.

Lemma main_short_row_witness :
  (connect_ok short_row_connector = true /\ execute_ok short_row_connector = true /\
   fetches short_row_connector
   = (map Some [["bob"; "bob@x.com"]] ++ Some ["eve"] :: [Some ["ann"; "ann@x.com"]])%list /\
   Forall (fun row => List.length row = List.length (description short_row_connector))
     [["bob"; "bob@x.com"]] /\
   List.length ["eve"] < List.length (description short_row_connector)) /\
  main short_row_connector initial_world
  = (inr IndexError, {| db_open := true; cursor_open := true;
                        logged := map (row_message (description short_row_connector))
                                    [["bob"; "bob@x.com"]] |}).
Proof.
  split; [repeat split; repeat constructor; simpl; lia|].
  apply (main_short_row short_row_connector [["bob"; "bob@x.com"]] ["eve"]
           [Some ["ann"; "ann@x.com"]]); try reflexivity; repeat constructor.
Defined.

(** A row with more values than columns: the values past the last column
    are ignored, the message is that of the columns paired with the first
    values. *)
Theorem main_message_long_row (fields row : list string) :
  List.length fields <= List.length row ->
  main_message fields row = Some (row_message fields (firstn (List.length fields) row)).
Proof.
  intros Hl. unfold main_message, row_message. rewrite map_option_columns_le by exact Hl.
  now rewrite <- combine_firstn_l.
Qed.

Lemma main_message_long_row_witness :
  List.length ["name"; "email"] <= List.length ["bob"; "bob@x.com"; "extra"] /\
  main_message ["name"; "email"] ["bob"; "bob@x.com"; "extra"]
  = Some (row_message ["name"; "email"] (firstn 2 ["bob"; "bob@x.com"; "extra"])).
Proof. split; [simpl; lia | apply main_message_long_row; simpl; lia]. Defined.

(** ** get_logger and logger.info *)

Lemma existsb_new_id (n : nat) :
  existsb (fun h' => Nat.eqb (handler_id h') n)
    (map (fun i => {| handler_id := i; handler_fields := PII_FIELDS |}) (seq 0 n)) = false.
Proof.
  destruct (existsb _ _) eqn:E; [|reflexivity].
  apply existsb_exists in E. destruct E as [h [Hin Hh]].
  apply in_map_iff in Hin. destruct Hin as [i [<- Hi]].
  apply in_seq in Hi. apply Nat.eqb_eq in Hh. simpl in Hh. lia.
Qed.

Lemma get_logger_n_empty (n : nat) :
  get_logger_n (S n) empty_registry
  = {| user_data_logger :=
         Some {| lg_level := INFO; lg_propagate := false;
                 lg_handlers := map (fun i => {| handler_id := i; handler_fields := PII_FIELDS |})
                                  (seq 0 (S n)) |};
       next_id := S n |}.
Proof.
  induction n as [|n IH]; [reflexivity|].
  change (get_logger_n (S (S n)) empty_registry)
    with (fst (get_logger (get_logger_n (S n) empty_registry))).
  rewrite IH. unfold get_logger, getLogger, addHandler. cbn [user_data_logger next_id lg_handlers fst].
  rewrite existsb_new_id. rewrite (seq_S (S n) 0), map_app. reflexivity.
Qed.

Lemma format_stable (formatTime : nat -> string) (fields : list string) (r : LogRecord) :
  format formatTime fields (snd (format formatTime fields r)) = format formatTime fields r.
Proof. rewrite (format_equation formatTime fields r). cbn [snd]. now rewrite !format_equation. Qed.

Lemma emit_all_same (formatTime : nat -> string) (fields : list string) (hs : list Handler)
    (r : LogRecord) :
  Forall (fun h => handler_fields h = fields) hs ->
  emit_all formatTime hs r
  = repeat (fst (format formatTime fields r) ++ String "010" EmptyString) (List.length hs).
Proof.
  intros Hhs; revert r; induction Hhs as [|h hs Hh Hhs IH]; intros r; [reflexivity|].
  cbn [emit_all List.length repeat]. rewrite Hh.
  destruct (format formatTime fields r) as [s r'] eqn:E.
  rewrite IH. cbn [fst]. f_equal. f_equal.
  pose proof (format_stable formatTime fields r) as Hs. rewrite E in Hs. cbn [snd] in Hs.
  now rewrite Hs.
Qed.

(** After [n + 1] calls of [get_logger()] the ["user_data"] logger is at
    level INFO, does not propagate, and has [n + 1] stream handlers, all with
    [RedactingFormatter(PII_FIELDS)]: [addHandler] only skips a handler
    object already attached, and every call makes a new one. *)
Theorem get_logger_repeated (n : nat) :
  let lg := getLogger (get_logger_n (S n) empty_registry) in
  lg_level lg = INFO /\ lg_propagate lg = false /\
  List.length (lg_handlers lg) = S n /\
  Forall (fun h => handler_fields h = PII_FIELDS) (lg_handlers lg).
Proof.
  cbv zeta. rewrite get_logger_n_empty. cbn [getLogger user_data_logger lg_level lg_propagate lg_handlers].
  repeat split.
  - now rewrite length_map, length_seq.
  - apply Forall_forall. intros h Hh. apply in_map_iff in Hh. now destruct Hh as [i [<- _]].
Qed.

(** After [n] calls of [get_logger()], [logger.info(msg)] on the
    ["user_data"] logger writes the redacted line [n] times: nothing before
    the first call (the logger is at [NOTSET] and the root level WARNING is
    above INFO), and then once per attached handler, the same line each time
    since each handler formats the record the previous one updated. *)
Theorem info_lines_repeated (formatTime : nat -> string) (n created : nat) (msg : string) :
  info_lines formatTime (getLogger (get_logger_n n empty_registry)) created msg
  = repeat (fst (format formatTime PII_FIELDS (info_record created msg))
            ++ String "010" EmptyString) n.
Proof.
  destruct n as [|n]; [reflexivity|].
  rewrite get_logger_n_empty. unfold info_lines. cbn [getLogger user_data_logger lg_handlers].
  replace (info_enabled _) with true by reflexivity.
  rewrite (emit_all_same formatTime PII_FIELDS).
  - now rewrite length_map, length_seq.
  - apply Forall_forall. intros h Hh. apply in_map_iff in Hh. now destruct Hh as [i [<- _]].
Qed.

(** ** RedactingFormatter.format and the header of the line *)

Lemma prefix_header (f h s : string) :
  contains_char " " f = false -> contains_char "=" h = false ->
  prefix (f ++ "=") ((h ++ " ") ++ s) = false.
Proof.
  revert f; induction h as [|x h IH]; intros f Hf Hh.
  - destruct f as [|a f]; cbn [String.append prefix].
    + destruct (ascii_dec "=" " "); [discriminate | reflexivity].
    + cbn [contains_char] in Hf; apply orb_false_elim in Hf as [Ha _].
      destruct (ascii_dec a " ") as [->|]; [now rewrite Ascii.eqb_refl in Ha | reflexivity].
  - cbn [contains_char] in Hh; apply orb_false_elim in Hh as [Hx Hh].
    destruct f as [|a f]; cbn [String.append prefix].
    + destruct (ascii_dec "=" x) as [<-|]; [now rewrite Ascii.eqb_refl in Hx | reflexivity].
    + cbn [contains_char] in Hf; apply orb_false_elim in Hf as [_ Hf].
      destruct (ascii_dec a x); [now apply IH | reflexivity].
Qed.

Lemma match_key_header (alts : list string) (h s : string) :
  Forall (fun f => contains_char " " f = false) alts -> contains_char "=" h = false ->
  match_key alts ((h ++ " ") ++ s) = None.
Proof.
  intros Ha Hh; induction Ha as [|f fs Hf Hfs IH]; [reflexivity|].
  cbn [match_key]. now rewrite prefix_header.
Qed.

Lemma re_sub_header (alts : list string) (r sep h s : string) :
  Forall (fun f => contains_char " " f = false) alts -> contains_char "=" h = false ->
  re_sub alts r sep ((h ++ " ") ++ s) = (h ++ " ") ++ re_sub alts r sep s.
Proof.
  intros Ha; induction h as [|x h IH]; intros Hh.
  - rewrite re_sub_equation, (match_key_header alts EmptyString s Ha Hh). reflexivity.
  - rewrite re_sub_equation, (match_key_header alts (String x h) s Ha Hh).
    cbn [contains_char] in Hh; apply orb_false_elim in Hh as [_ Hh].
    cbn [String.append]. cbn [String.append] in IH. now rewrite IH.
Qed.

(** For plain-text fields without spaces and a formatted time without ['='],
    [RedactingFormatter(fields).format] of a ["user_data"] INFO record leaves
    the header [[HOLBERTON] user_data INFO <time>: ] as the plain
    [Formatter] writes it and redacts the message alone: the line is the
    header followed by [filter_datum(fields, "***", msg, ";")]. *)
Theorem format_info_header (formatTime : nat -> string) (fields : list string)
    (created : nat) (msg : string) :
  literal_fields fields = true ->
  Forall (fun f => contains_char " " f = false) fields ->
  contains_char "=" (formatTime created) = false ->
  fst (format formatTime fields (info_record created msg))
  = "[HOLBERTON] user_data INFO " ++ ljust 15 (formatTime created) ++ ": "
    ++ filter_datum fields REDACTION msg SEPARATOR.
Proof.
  intros _ Hf Ht. rewrite format_equation. cbn [fst]. rewrite formatMessage_info.
  unfold filter_datum. rewrite re_sub_header.
  - now rewrite !string_app_assoc.
  - apply Forall_alternatives; [reflexivity | exact Hf].
  - unfold ljust. rewrite !contains_char_app, Ht, contains_char_spaces by reflexivity.
    reflexivity.
Qed.

Lemma format_info_header_witness :
  (literal_fields PII_FIELDS = true /\ Forall (fun f => contains_char " " f = false) PII_FIELDS /\
   contains_char "=" (sample_time 0) = false) /\
  fst (format sample_time PII_FIELDS (info_record 0 "name=Bob;x=1"))
  = "[HOLBERTON] user_data INFO " ++ ljust 15 (sample_time 0) ++ ": "
    ++ filter_datum PII_FIELDS REDACTION "name=Bob;x=1" SEPARATOR.
Proof.
  split; [repeat split; repeat constructor|].
  apply format_info_header; repeat constructor.
Defined.
